(** * The QQ adapter configuration wizard ([config_qq_adapter.py])

    A shallow embedding of the script and the properties of its two
    working parts: the interactive collector [input_qq_list] and the
    comment-preserving patcher [update_config_preserve_comments].

    Python strings are sequences of Unicode code points; they are
    modelled as [list N].  The configuration dictionary is a [gmap];
    exceptions are values of an error monad; the console, the log, the
    standard input and the file system are fields of an explicit
    [world] that the effectful functions thread through. *)

From Stdlib Require Import ZArith NArith List String Ascii Lia DecimalString.
From stdpp Require Import base option list gmap.

Import ListNotations.
Local Open Scope N_scope.

(** ** Python strings *)

Abbreviation char := N.
Abbreviation str := (list N).

(** An ASCII literal of the source, as code points. *)
Definition lit (s : string) : str :=
  List.map N_of_ascii (list_ascii_of_string s).

Arguments lit : simpl never.

Definition SPACE : char := 0x20.
Definition TAB : char := 0x09.
Definition NEWLINE : char := 0x0A.
Definition COMMA : char := 0x2C.
Definition FULLWIDTH_COMMA : char := 0xFF0C.
Definition EQUALS : char := 0x3D.
Definition HASH : char := 0x23.
Definition LBRACKET : char := 0x5B.
Definition RBRACKET : char := 0x5D.

(** [str.isspace] on one code point: the characters that [strip],
    [lstrip] and [split] without arguments treat as whitespace. *)
Definition isspace (c : char) : bool :=
  ((0x09 <=? c) && (c <=? 0x0D)) || ((0x1C <=? c) && (c <=? 0x20))
  || (c =? 0x85) || (c =? 0xA0) || (c =? 0x1680)
  || ((0x2000 <=? c) && (c <=? 0x200A))
  || (c =? 0x2028) || (c =? 0x2029) || (c =? 0x202F) || (c =? 0x205F)
  || (c =? 0x3000).

(** [s.lstrip()] *)
Fixpoint lstrip (s : str) : str :=
  match s with
  | [] => []
  | c :: r => if isspace c then lstrip r else s
  end.

(** [s.rstrip()]: a character stays unless it and everything after it
    is whitespace. *)
Fixpoint rstrip (s : str) : str :=
  match s with
  | [] => []
  | c :: r =>
      match rstrip r with
      | [] => if isspace c then [] else [c]
      | r' => c :: r'
      end
  end.

(** [s.strip()] *)
Definition strip (s : str) : str := rstrip (lstrip s).

(** [s.startswith(c)] and [s.endswith(c)] for a one-character [c]. *)
Definition startswith (c : char) (s : str) : bool :=
  match s with
  | [] => false
  | x :: _ => x =? c
  end.

Definition endswith (c : char) (s : str) : bool :=
  match List.last (List.map Some s) None with
  | Some x => x =? c
  | None => false
  end.

(** [s[1:-1]] *)
Definition slice_1_m1 (s : str) : str := List.removelast (List.tl s).

(** [c in s] for a one-character [c]. *)
Definition contains (c : char) (s : str) : bool := List.existsb (N.eqb c) s.

(** [s.split(c)[0]]: the text before the first [c] (all of [s] when
    there is none). *)
Fixpoint split_first (c : char) (s : str) : str :=
  match s with
  | [] => []
  | x :: r => if x =? c then [] else x :: split_first c r
  end.

(** [s.replace(sep, ' ')] for a one-character [sep]. *)
Definition replace (sep by_ : char) (s : str) : str :=
  List.map (fun x => if x =? sep then by_ else x) s.

(** [s.split()]: the maximal runs of non-whitespace characters.
    [tok] is the run being read. *)
Fixpoint split_from (tok : str) (s : str) : list str :=
  match s with
  | [] => match tok with [] => [] | _ => [tok] end
  | c :: r =>
      if isspace c
      then match tok with
           | [] => split_from [] r
           | _ => tok :: split_from [] r
           end
      else split_from (tok ++ [c]) r
  end.

Definition split (s : str) : list str := split_from [] s.

(** [' ' * n] *)
Definition spaces (n : nat) : str := List.repeat SPACE n.

(** [sep.join(parts)] *)
Fixpoint join (sep : str) (parts : list str) : str :=
  match parts with
  | [] => []
  | [p] => p
  | p :: rest => p ++ sep ++ join sep rest
  end.

(** [repr] of an [int]: the decimal numeral, with a minus sign for a
    negative number. *)
Definition repr_int (z : Z) : str := lit (NilZero.string_of_int (Z.to_int z)).

(** [str] of a [list] of [int]s, as an f-string renders it. *)
Definition str_int_list (l : list Z) : str :=
  [LBRACKET] ++ join (lit ", ") (List.map repr_int l) ++ [RBRACKET].

(** ** Exceptions *)

Inductive exn :=
| AttributeError
| TypeError
| EOFError
| OSError
| KeyError
| TomlDecodeError
| KeyboardInterrupt.

(** [except Exception] catches everything but [KeyboardInterrupt]. *)
Definition is_Exception (e : exn) : bool :=
  match e with
  | KeyboardInterrupt => false
  | _ => true
  end.

Inductive result (A : Type) :=
| Ok (a : A)
| Raise (e : exn).
Arguments Ok {A} a.
Arguments Raise {A} e.

#[global] Instance result_ret : MRet result := fun A a => Ok a.
#[global] Instance result_bind : MBind result := fun A B f m =>
  match m with
  | Ok a => f a
  | Raise e => Raise e
  end.

(** ** The configuration document

    [config] is the dictionary [toml.load] returns.  The patcher looks
    at it two levels deep and only formats what it finds, so an object
    stored under a key of a table is either a list of integers or any
    other object, given by the text [str()] renders for it; an object
    stored at top level is a table or it is not. *)

Inductive item :=
| IntList (ids : list Z)
| Other (text : str).

Inductive entry :=
| Table (t : gmap (list N) item)
| NotTable.

(** [f'{v}'] *)
Definition format_item (v : item) : str :=
  match v with
  | IntList ids => str_int_list ids
  | Other text => text
  end.

(** [config.get('chat', {})] *)
Definition get_chat (config : gmap (list N) entry) : entry :=
  default (Table ∅) (config !! lit "chat").

(** [e.get(key, dflt)]; only a dictionary has a [get]. *)
Definition entry_get (e : entry) (key : str) (dflt : item) : result item :=
  match e with
  | Table t => Ok (default dflt (t !! key))
  | NotTable => Raise AttributeError
  end.

(** ** The patcher: the loop of [update_config_preserve_comments] *)

Record loop_state := {
  new_lines : list str;
  in_section : option str
}.

(** [new_lines.append(l)] *)
Definition append (st : loop_state) (l : str) : loop_state :=
  {| new_lines := new_lines st ++ [l]; in_section := in_section st |}.

(** Truth value of [in_section]: [None] and the empty string are false. *)
Definition truthy (o : option str) : bool :=
  match o with
  | Some (_ :: _) => true
  | _ => false
  end.

(** [not s]: an empty string or list is false. *)
Definition is_empty {A} (s : list A) : bool :=
  match s with
  | [] => true
  | _ => false
  end.

(** One iteration of [for line in original_lines] (lines 59-92). *)
Definition loop_body (config : gmap (list N) entry) (st : loop_state)
    (line : str) : result loop_state :=
  let stripped := strip line in
  if startswith LBRACKET stripped && endswith RBRACKET stripped then
    let section_name := strip (slice_1_m1 stripped) in
    Ok {| new_lines := new_lines st ++ [line];
          in_section := Some section_name |}
  else if startswith HASH stripped || is_empty stripped then
    Ok (append st line)
  else if contains EQUALS line && truthy (in_section st) then
    let key := strip (split_first EQUALS line) in
    if bool_decide (in_section st = Some (lit "chat")) then
      if bool_decide (key = lit "group_list") then
        let indent := (length line - length (lstrip line))%nat in
        group_list ← entry_get (get_chat config) (lit "group_list") (IntList []);
        Ok (append st (spaces indent ++ lit "group_list = "
                         ++ format_item group_list ++ [NEWLINE]))
      else if bool_decide (key = lit "private_list") then
        let indent := (length line - length (lstrip line))%nat in
        private_list ← entry_get (get_chat config) (lit "private_list") (IntList []);
        Ok (append st (spaces indent ++ lit "private_list = "
                         ++ format_item private_list ++ [NEWLINE]))
      else Ok (append st line)
    else Ok (append st line)
  else Ok (append st line).

Fixpoint for_each_line (config : gmap (list N) entry) (st : loop_state)
    (lines : list str) : result loop_state :=
  match lines with
  | [] => Ok st
  | line :: rest =>
      st' ← loop_body config st line;
      for_each_line config st' rest
  end.

(** Lines 56-92: the line list the function is about to write. *)
Definition patch_lines (config : gmap (list N) entry)
    (original_lines : list str) : result (list str) :=
  st ← for_each_line config {| new_lines := []; in_section := None |}
         original_lines;
  Ok (new_lines st).

(** The document [{'chat': {'group_list': g, 'private_list': p}}]. *)
Definition chat_doc (g p : list Z) : gmap (list N) entry :=
  {[ lit "chat" := Table (<[ lit "private_list" := IntList p ]>
                          {[ lit "group_list" := IntList g ]}) ]}.

(** ** Vocabulary of the specification

    The section cursor, the key of a line and the replacement line, each
    written from its description rather than read off the loop. *)

(** A header line: the trimmed line is bracket-delimited. *)
Definition is_header (line : str) : bool :=
  startswith LBRACKET (strip line) && endswith RBRACKET (strip line).

(** A comment line or a blank line. *)
Definition is_comment_or_blank (line : str) : bool :=
  startswith HASH (strip line) || is_empty (strip line).

(** The section cursor after [line], when it was [sec] before it. *)
Definition next_section (sec : option str) (line : str) : option str :=
  if is_header line then Some (strip (slice_1_m1 (strip line))) else sec.

(** The section cursor in front of line [i]: the name in the last
    header among the first [i] lines, [None] when there is none. *)
Definition cursor (lines : list str) (i : nat) : option str :=
  fold_left next_section (take i lines) None.

(** The key of an assignment line: the text before the first [=],
    trimmed.  A line without [=] has no key. *)
Definition key_of (line : str) : option str :=
  if contains EQUALS line then Some (strip (split_first EQUALS line))
  else None.

Definition target_keys : list str := [lit "group_list"; lit "private_list"].

(** Line [line], met with the cursor at [sec], is an assignment to
    [key], one of the two target keys, inside the chat section. *)
Definition targets (sec : option str) (line : str) (key : str) : Prop :=
  sec = Some (lit "chat") ∧ key_of line = Some key ∧ key ∈ target_keys.

(** Number of leading whitespace characters. *)
Fixpoint leading_ws (s : str) : nat :=
  match s with
  | [] => 0
  | c :: r => if isspace c then S (leading_ws r) else 0
  end.

(** The line that replaces a target line: [<indent><key> = <value>]
    and a line terminator. *)
Definition replacement_line (indent : nat) (key : str) (value : str) : str :=
  spaces indent ++ key ++ lit " = " ++ value ++ [NEWLINE].

(** The value the document holds for [key] in its chat table (the
    empty list when the table or the key is missing). *)
Definition chat_value (config : gmap (list N) entry) (key : str)
  : result item :=
  entry_get (get_chat config) key (IntList []).

(** What becomes of one line. *)
Definition patched (config : gmap (list N) entry) (sec : option str)
    (line : str) : result str :=
  match key_of line with
  | Some key =>
      if bool_decide (sec = Some (lit "chat"))
         && bool_decide (key ∈ target_keys)
      then v ← chat_value config key;
           Ok (replacement_line (leading_ws line) key (format_item v))
      else Ok line
  | None => Ok line
  end.

(** The document invariant of the data model, as far as the patcher
    depends on it: what is stored under [chat], if anything, is a table. *)
Definition chat_is_table (config : gmap (list N) entry) : Prop :=
  config !! lit "chat" ≠ Some NotTable.

(** The whole loop, as a recursion that carries the cursor. *)
Fixpoint patch_from (config : gmap (list N) entry) (sec : option str)
    (lines : list str) : result (list str) :=
  match lines with
  | [] => Ok []
  | line :: rest =>
      l ← patched config sec line;
      ls ← patch_from config (next_section sec line) rest;
      Ok (l :: ls)
  end.

(** ** The world: console, log, standard input, files *)

(** What one call of [input()] finds on the standard input. *)
Inductive read_result :=
| Line (s : str)      (* a line, without its terminator *)
| Eof                 (* end of input: [EOFError] *)
| Interrupt.          (* the operator's interrupt: [KeyboardInterrupt] *)

(** The [print] and [logger] calls of the script, in source order. *)
Inductive event :=
| LogReadFailed (e : exn)                      (* line 40 *)
| LogUpdated                                   (* line 98 *)
| LogUpdateFailed (e : exn)                    (* line 102 *)
| PrintPrompt (prompt : str)                   (* lines 115-118 *)
| InputPrompt                                  (* line 120 *)
| LogSkipped                                   (* line 123 *)
| PrintWarnQQ (part : str)                     (* line 142 *)
| PrintWarnInput (part : str)                  (* line 144 *)
| LogAdded (qq_list : list Z)                  (* line 147 *)
| PrintAdded (n : nat)                         (* line 148 *)
| LogStart                                     (* line 160 *)
| PrintBanner                                  (* lines 161-165 *)
| LogMissing (config_path : list str)          (* line 171 *)
| PrintMissing                                 (* line 172 *)
| PrintSaving                                  (* line 191 *)
| PrintSaved (config_path : list str) (groups users : nat) (* lines 193-196 *)
| LogDone                                      (* line 197 *)
| PrintSaveFailed                              (* line 200 *)
| LogWizardError (e : exn)                     (* line 204 *)
| PrintWizardError (e : exn).                  (* line 205 *)

(** A path is its list of components.  The text of a file is what text
    mode reads and writes: decoded, with [\n] as the line terminator. *)
Record world := {
  script_dir : list str;                   (* [Path(__file__).parent] *)
  files : gmap (list (list N)) (list N);
  unwritable : gset (list (list N));       (* opening these for writing fails *)
  stdin : list read_result;
  trace : list event
}.

Definition set_files (f : gmap (list (list N)) (list N)) (w : world) : world :=
  {| script_dir := script_dir w; files := f; unwritable := unwritable w;
     stdin := stdin w; trace := trace w |}.

Definition set_stdin (i : list read_result) (w : world) : world :=
  {| script_dir := script_dir w; files := files w; unwritable := unwritable w;
     stdin := i; trace := trace w |}.

Definition set_trace (t : list event) (w : world) : world :=
  {| script_dir := script_dir w; files := files w; unwritable := unwritable w;
     stdin := stdin w; trace := t |}.

(** Computations that read and change the world and may raise. *)
Definition M (A : Type) : Type := world → result A * world.

#[global] Instance M_ret : MRet M := fun A a w => (Ok a, w).
#[global] Instance M_bind : MBind M := fun A B f m w =>
  match m w with
  | (Ok a, w') => f a w'
  | (Raise e, w') => (Raise e, w')
  end.

Definition raise {A} (e : exn) : M A := fun w => (Raise e, w).

Definition lift {A} (r : result A) : M A := fun w => (r, w).

(** [try: body  except Exception as e: handler e] *)
Definition try_except {A} (body : M A) (handler : exn → M A) : M A :=
  fun w =>
    match body w with
    | (Ok a, w') => (Ok a, w')
    | (Raise e, w') =>
        if is_Exception e then handler e w' else (Raise e, w')
    end.

(** A [print] or [logger] call. *)
Definition emit (e : event) : M unit :=
  fun w => (Ok tt, set_trace (trace w ++ [e]) w).

(** [input(">>> ")] *)
Definition input : M str :=
  fun w =>
    let w' := set_trace (trace w ++ [InputPrompt]) w in
    match stdin w with
    | [] => (Raise EOFError, w')
    | Line s :: rest => (Ok s, set_stdin rest w')
    | Eof :: rest => (Raise EOFError, set_stdin rest w')
    | Interrupt :: rest => (Raise KeyboardInterrupt, set_stdin rest w')
    end.

(** [path.exists()] *)
Definition exists_ (path : list str) : M bool :=
  fun w => (Ok (bool_decide (is_Some (files w !! path))), w).

(** [f.readlines()]: the text cut after each line terminator.
    [cur] is the line being read. *)
Fixpoint readlines_from (cur : str) (text : str) : list str :=
  match text with
  | [] => match cur with [] => [] | _ => [cur] end
  | c :: r =>
      if c =? NEWLINE then (cur ++ [c]) :: readlines_from [] r
      else readlines_from (cur ++ [c]) r
  end.

Definition readlines (text : str) : list str := readlines_from [] text.

(** [open(path, 'r')] and reading all of it. *)
Definition read_text (path : list str) : M str :=
  fun w =>
    match files w !! path with
    | Some text => (Ok text, w)
    | None => (Raise OSError, w)
    end.

(** [open(path, 'w')] and [f.writelines(lines)]. *)
Definition write_lines (path : list str) (lines : list str) : M unit :=
  fun w =>
    if bool_decide (path ∈ unwritable w) then (Raise OSError, w)
    else (Ok tt, set_files (<[ path := concat lines ]> (files w)) w).

(** [get_config_path()] (lines 19-23) *)
Definition config_path (w : world) : list str :=
  script_dir w
  ++ [lit "modules"; lit "MaiBot-Napcat-Adapter"; lit "config.toml"].

Definition get_config_path : M (list str) :=
  fun w => (Ok (config_path w), w).

(** [update_config_preserve_comments] (lines 44-103) *)
Definition update_config_preserve_comments (file_path : list str)
    (config : gmap (list N) entry) (original_lines : list str) : M bool :=
  try_except
    (new_lines ← lift (patch_lines config original_lines);
     _ ← write_lines file_path new_lines;
     _ ← emit LogUpdated;
     mret true)
    (fun e => _ ← emit (LogUpdateFailed e); mret false).

(** ** [int(s)]

    The built-in is not part of the script.  It is written out here as
    CPython defines it for a string in base ten; the table of decimal
    digits beyond ASCII and the limit on the number of digits belong to
    the interpreter and stay parameters. *)

Definition UNDERSCORE : char := 0x5F.
Definition PLUS : char := 0x2B.
Definition MINUS : char := 0x2D.
Definition QUESTION : char := 0x3F.

(** [Py_ISSPACE] *)
Definition py_isspace (c : char) : bool :=
  ((0x09 <=? c) && (c <=? 0x0D)) || (c =? 0x20).

Fixpoint skip_spaces (s : str) : str :=
  match s with
  | [] => []
  | c :: r => if py_isspace c then skip_spaces r else s
  end.

Definition digit_value (c : char) : option Z :=
  if (0x30 <=? c) && (c <=? 0x39) then Some (Z.of_N (c - 0x30)) else None.

(** The digits and single underscores at the front of [s]: the number
    read, how many digits it has, and what follows.  [prev] tells
    whether the character before was an underscore. *)
Fixpoint scan_digits (prev : bool) (acc : Z) (digits : N) (s : str)
  : option (Z * N * str) :=
  match s with
  | [] => if prev then None else Some (acc, digits, [])
  | c :: r =>
      if c =? UNDERSCORE then
        if prev then None else scan_digits true acc digits r
      else
        match digit_value c with
        | Some d => scan_digits false (10 * acc + d)%Z (digits + 1) r
        | None => if prev then None else Some (acc, digits, s)
        end
  end.

(** The separators of line 128. *)
Definition separators : list char := [COMMA; FULLWIDTH_COMMA; SPACE; TAB].

(** A delimiter of the typed line: one of the separators, or a
    whitespace character. *)
Definition is_delimiter (c : char) : bool :=
  bool_decide (c ∈ separators) || isspace c.

(** [s] begins with a character of a token. *)
Definition starts_token (s : str) : bool :=
  match s with
  | [] => false
  | c :: _ => negb (is_delimiter c)
  end.

(** The tokens of a typed line: its maximal runs of characters that are
    not delimiters, from left to right. *)
Fixpoint tokens (s : str) : list str :=
  match s with
  | [] => []
  | c :: r =>
      if is_delimiter c then tokens r
      else if starts_token r then
        match tokens r with
        | t :: ts => (c :: t) :: ts
        | [] => [[c]]
        end
      else [c] :: tokens r
  end.

(** The four replacements of lines 131-132, one character at a time. *)
Definition normalized (c : char) : char :=
  if bool_decide (c ∈ separators) then SPACE else c.

(** What [split_from] returns when a token [tok] is under way, in terms
    of the tokens of the rest. *)
Definition glue (tok : str) (s : str) : list str :=
  match tok with
  | [] => tokens s
  | _ =>
      if starts_token s then
        match tokens s with
        | t :: ts => (tok ++ t) :: ts
        | [] => [tok]
        end
      else tok :: tokens s
  end.

Section Interpreter.

(** [Py_UNICODE_TODECIMAL] on a code point from 127 up: its value as
    a decimal digit, if it is one. *)
Variable unicode_decimal : char → option N.

(** [sys.get_int_max_str_digits()]; zero switches the limit off. *)
Variable max_str_digits : N.

(** Whitespace and decimal digits of any script, brought to ASCII;
    the text is cut at the first character that is neither. *)
Fixpoint to_ascii (s : str) : str :=
  match s with
  | [] => []
  | ch :: r =>
      if ch <? 127 then ch :: to_ascii r
      else if isspace ch then SPACE :: to_ascii r
      else match unicode_decimal ch with
           | Some d => (0x30 + d) :: to_ascii r
           | None => [QUESTION]
           end
  end.

(** [int(s)]; [None] stands for [ValueError]. *)
Definition py_int (s : str) : option Z :=
  let s1 := skip_spaces (to_ascii s) in
  let '(sign, s2) :=
    match s1 with
    | c :: r =>
        if c =? PLUS then (1%Z, r)
        else if c =? MINUS then ((-1)%Z, r)
        else (1%Z, s1)
    | [] => (1%Z, s1)
    end in
  if startswith UNDERSCORE s2 then None
  else
    match scan_digits false 0 0 s2 with
    | None => None
    | Some (z, digits, rest) =>
        if digits =? 0 then None
        else if (0 <? max_str_digits) && (max_str_digits <? digits) then None
        else if is_empty (skip_spaces rest) then Some (sign * z)%Z
        else None
    end.

(** ** The collector: [input_qq_list] (lines 106-150) *)

(** The loop of lines 136-144; [qq_list] is the list built so far. *)
Fixpoint for_each_part (qq_list : list Z) (parts : list str) : M (list Z) :=
  match parts with
  | [] => mret qq_list
  | part :: rest =>
      qq_list' ←
        match py_int (strip part) with
        | Some qq_num =>
            if (0 <? qq_num)%Z then mret (qq_list ++ [qq_num])
            else (_ ← emit (PrintWarnQQ part); mret qq_list)
        | None => _ ← emit (PrintWarnInput part); mret qq_list
        end;
      for_each_part qq_list' rest
  end.

Definition input_qq_list (prompt : str) : M (list Z) :=
  _ ← emit (PrintPrompt prompt);
  line ← input;
  let user_input := strip line in
  if is_empty user_input then
    _ ← emit LogSkipped;
    mret []
  else
    let user_input :=
      fold_left (fun s sep => replace sep SPACE s) separators user_input in
    let parts := split user_input in
    qq_list ← for_each_part [] parts;
    _ ← (if is_empty qq_list then mret tt
         else (_ ← emit (LogAdded qq_list);
               emit (PrintAdded (length qq_list))));
    mret qq_list.

(** *** Vocabulary of the specification for the collector *)

(** The identifier a token contributes, if any: the token parses to a
    strictly positive integer. *)
Definition accepted (part : str) : option Z :=
  match py_int part with
  | Some z => if (0 <? z)%Z then Some z else None
  | None => None
  end.

(** The warning a token causes, if any: it parses to zero or to a
    negative number, or it does not parse. *)
Definition warning (part : str) : option event :=
  match py_int part with
  | Some z => if (0 <? z)%Z then None else Some (PrintWarnQQ part)
  | None => Some (PrintWarnInput part)
  end.

End Interpreter.

(** ** The wizard: [configure_qq_adapter] (lines 153-206) *)

(** The two prompt labels of lines 183 and 187. *)
Definition PROMPT_GROUPS : str :=
  [0x3010; 0x7FA4; 0x804A; 0x767D; 0x540D; 0x5355; 0x914D; 0x7F6E; 0x3011].
Definition PROMPT_PRIVATE : str :=
  [0x3010; 0x79C1; 0x804A; 0x767D; 0x540D; 0x5355; 0x914D; 0x7F6E; 0x3011].

(** [config['chat'][key] = value]; only a dictionary takes a string key. *)
Definition set_chat_item (config : gmap (list N) entry) (key : str)
    (value : list Z) : result (gmap (list N) entry) :=
  match config !! lit "chat" with
  | Some (Table t) =>
      Ok (<[ lit "chat" := Table (<[ key := IntList value ]> t) ]> config)
  | Some NotTable => Raise TypeError
  | None => Raise KeyError
  end.

Section Wizard.

Variable unicode_decimal : char → option N.
Variable max_str_digits : N.

(** [toml.load] on the text of the file; [None] stands for the
    decoding error of the parser, which is not part of the script. *)
Variable toml_load : str → option (gmap (list N) entry).

(** [read_config_with_comments] (lines 26-41) *)
Definition read_config_with_comments (file_path : list str)
  : M (gmap (list N) entry * list str) :=
  try_except
    (text ← read_text file_path;
     let lines := readlines text in
     match toml_load text with
     | Some config => mret (config, lines)
     | None => raise TomlDecodeError
     end)
    (fun e => _ ← emit (LogReadFailed e); raise e).

Definition configure_qq_adapter : M bool :=
  try_except
    (_ ← emit LogStart;
     _ ← emit PrintBanner;
     config_path ← get_config_path;
     found ← exists_ config_path;
     if negb found then
       (_ ← emit (LogMissing config_path);
        _ ← emit PrintMissing;
        mret false) : M bool
     else
       '(config, original_lines) ← read_config_with_comments config_path;
       let config :=
         if bool_decide (is_Some (config !! lit "chat")) then config
         else <[ lit "chat" := Table ∅ ]> config in
       group_list ← input_qq_list unicode_decimal max_str_digits PROMPT_GROUPS;
       config ← lift (set_chat_item config (lit "group_list") group_list);
       private_list ← input_qq_list unicode_decimal max_str_digits PROMPT_PRIVATE;
       config ← lift (set_chat_item config (lit "private_list") private_list);
       _ ← emit PrintSaving;
       update_config_preserve_comments config_path config original_lines
       ≫= λ saved : bool,
       if saved then
         (_ ← emit (PrintSaved config_path (length group_list)
                      (length private_list));
          _ ← emit LogDone;
          mret true) : M bool
       else
         (_ ← emit PrintSaveFailed;
          mret false) : M bool)
    (fun e =>
       _ ← emit (LogWizardError e);
       _ ← emit (PrintWizardError e);
       mret false).

End Wizard.

(** ** A sample file and a sample document *)

(** A literal followed by the line terminator. *)
Definition ln (s : string) : str := lit s ++ [NEWLINE].

Definition sample_lines : list str :=
  [ ln "# adapter settings";
    [NEWLINE];
    ln "[chat]";
    ln "group_list = [1,2]";
    ln "  private_list = []";
    ln "[other]";
    ln "group_list = [7]" ].

Definition sample_config : gmap (list N) entry := chat_doc [10; 20; 30]%Z [].

(** A chat section that assigns [group_list] twice, the second time
    behind a tab. *)
Definition repeated_lines : list str :=
  [ ln "[chat]";
    ln "group_list = [1]";
    TAB :: ln "group_list = [2]" ].

(** A target line that carries a comment of its own. *)
Definition commented_lines : list str :=
  [ ln "[chat]";
    ln "group_list = [1, 2]  # trusted groups" ].

(** An interpreter that knows the ASCII digits only and has the usual
    limit of 4300 digits. *)
Definition ascii_only : char → option N := fun _ => None.

(** A world whose program directory holds no configuration file and
    whose operator types the line of the specification's example. *)
Definition sample_world : world :=
  {| script_dir := [lit "opt"; lit "maibot"];
     files := ∅;
     unwritable := ∅;
     stdin := [Line (lit "123, 456  789,abc -5")];
     trace := [] |}.

(** A world with the sample file in place, whose operator types three
    group identifiers and skips the private list. *)
Definition filled_world : world :=
  {| script_dir := [lit "opt"; lit "maibot"];
     files := {[ [lit "opt"; lit "maibot"; lit "modules";
                  lit "MaiBot-Napcat-Adapter"; lit "config.toml"]
                 := concat sample_lines ]};
     unwritable := ∅;
     stdin := [Line (lit "10,20 30"); Line []];
     trace := [] |}.

(** The example of the specification: [group_list = [1,2]] under
    [[chat]]. *)
Definition example_lines : list str :=
  [ ln "[chat]"; ln "group_list = [1,2]" ].

(** * Properties *)

(** ** Sample evaluations *)

Example strip_ex : strip (lit "  [chat] ") = lit "[chat]".
Proof. reflexivity. Qed.

Example split_ex :
  split (lit " 12  ab 3") = [lit "12"; lit "ab"; lit "3"].
Proof. reflexivity. Qed.

Example str_int_list_ex :
  str_int_list [10; -20; 0]%Z = lit "[10, -20, 0]".
Proof. reflexivity. Qed.

Example str_int_list_nil : str_int_list [] = lit "[]".
Proof. reflexivity. Qed.

Example patch_ex :
  patch_lines sample_config sample_lines
  = Ok [ ln "# adapter settings";
         [NEWLINE];
         ln "[chat]";
         ln "group_list = [10, 20, 30]";
         ln "  private_list = []";
         ln "[other]";
         ln "group_list = [7]" ].
Proof. by vm_compute. Qed.

(** A header that is followed by a comment is not bracket-delimited
    once trimmed: it does not move the section cursor. *)
Example header_with_comment :
  cursor [ln "[chat] # lists"; ln "group_list = [1]"] 1 = None.
Proof. reflexivity. Qed.

(** ** Facts about the string operations *)

Lemma lstrip_length (s : str) : (length (lstrip s) ≤ length s)%nat.
Proof.
  induction s as [|c r IH]; simpl; [lia|].
  destruct (isspace c); simpl; lia.
Qed.

Lemma indent_leading_ws (s : str) :
  (length s - length (lstrip s))%nat = leading_ws s.
Proof.
  induction s as [|c r IH]; simpl; [reflexivity|].
  destruct (isspace c); simpl.
  - pose proof (lstrip_length r). rewrite <- IH. lia.
  - lia.
Qed.

Lemma lstrip_head (s : str) c r :
  lstrip s = c :: r → isspace c = false.
Proof.
  induction s as [|x s IH]; simpl; [discriminate|].
  destruct (isspace x) eqn:E; [exact IH|].
  intros [= -> _]. exact E.
Qed.

Lemma lstrip_app (s t : str) :
  lstrip s ≠ [] → lstrip (s ++ t) = lstrip s ++ t.
Proof.
  induction s as [|x s IH]; simpl; [congruence|].
  destruct (isspace x); [exact IH|reflexivity].
Qed.

Lemma rstrip_head c (r : str) :
  isspace c = false → ∃ t, rstrip (c :: r) = c :: t.
Proof.
  intros E. simpl. rewrite E. destruct (rstrip r); eauto.
Qed.

Lemma rstrip_cons_inv (s : str) c t :
  rstrip s = c :: t → ∃ r, s = c :: r.
Proof.
  destruct s as [|x r]; simpl; [discriminate|].
  destruct (rstrip r); [destruct (isspace x)|]; intros [= <- _]; eauto.
Qed.

(** The first character of a trimmed prefix is the first character of
    the trimmed whole. *)
Lemma strip_head_prefix (p rest : str) c k :
  strip p = c :: k → ∃ t, strip (p ++ rest) = c :: t.
Proof.
  unfold strip. intros H.
  destruct (rstrip_cons_inv _ _ _ H) as [r Hr].
  rewrite lstrip_app by (rewrite Hr; discriminate).
  rewrite Hr. simpl app. apply rstrip_head.
  exact (lstrip_head _ _ _ Hr).
Qed.

Lemma split_first_prefix c (s : str) :
  ∃ rest, s = split_first c s ++ rest.
Proof.
  induction s as [|x s [rest IH]]; simpl; [by exists []|].
  destruct (x =? c).
  - by exists (x :: s).
  - exists rest. simpl. by f_equal.
Qed.

Lemma key_of_head (line : str) c k :
  key_of line = Some (c :: k) → ∃ t, strip line = c :: t.
Proof.
  unfold key_of. destruct (contains EQUALS line); [|discriminate].
  intros [= H].
  destruct (split_first_prefix EQUALS line) as [rest Hrest].
  rewrite Hrest. eapply strip_head_prefix, H.
Qed.

(** A line whose key is a target key is neither a header nor a comment
    nor blank. *)
Lemma target_key_plain (line key : str) :
  key_of line = Some key → key ∈ target_keys →
  is_header line = false ∧ is_comment_or_blank line = false.
Proof.
  intros Hk Hin. unfold target_keys in Hin.
  apply elem_of_cons in Hin as [->|Hin];
    [|apply elem_of_cons in Hin as [->|Hin]; [|by apply elem_of_nil in Hin]];
    destruct (key_of_head _ _ _ Hk) as [t Ht];
    unfold is_header, is_comment_or_blank; rewrite Ht; by vm_compute.
Qed.

(** ** The loop, line by line *)

Lemma patched_not_plain config sec (line : str) :
  is_header line = true ∨ is_comment_or_blank line = true →
  patched config sec line = Ok line.
Proof.
  intros Hp. unfold patched.
  destruct (key_of line) as [key|] eqn:Hk; [|reflexivity].
  destruct (bool_decide (sec = Some (lit "chat"))); [|reflexivity].
  case_bool_decide as Hin; [|reflexivity].
  destruct (target_key_plain _ _ Hk Hin) as [H1 H2].
  destruct Hp; congruence.
Qed.

Lemma target_keys_cases (key : str) :
  key ∈ target_keys ↔ key = lit "group_list" ∨ key = lit "private_list".
Proof.
  unfold target_keys. rewrite !elem_of_cons, elem_of_nil. tauto.
Qed.

(** One iteration appends what [patched] says and moves the cursor as
    [next_section] says. *)
Lemma loop_body_spec config st (line : str) :
  loop_body config st line =
  (l ← patched config (in_section st) line;
   Ok {| new_lines := new_lines st ++ [l];
         in_section := next_section (in_section st) line |}).
Proof.
  unfold loop_body, next_section.
  fold (is_header line). fold (is_comment_or_blank line).
  destruct (is_header line) eqn:Hh.
  { rewrite patched_not_plain by auto. reflexivity. }
  destruct (is_comment_or_blank line) eqn:Hc.
  { rewrite patched_not_plain by auto. reflexivity. }
  unfold patched, key_of, chat_value, append.
  destruct (contains EQUALS line); cbn [andb]; [|reflexivity].
  case_bool_decide as Hsec; cbn [andb].
  - replace (truthy (in_section st)) with true by (by rewrite Hsec).
    rewrite !indent_leading_ws.
    case_bool_decide as Hg.
    + rewrite Hg. rewrite bool_decide_eq_true_2 by (apply target_keys_cases; auto).
      destruct (entry_get _ _ _); reflexivity.
    + case_bool_decide as Hp.
      * rewrite Hp. rewrite bool_decide_eq_true_2 by (apply target_keys_cases; auto).
        destruct (entry_get _ _ _); reflexivity.
      * rewrite bool_decide_eq_false_2; [reflexivity|].
        rewrite target_keys_cases. tauto.
  - destruct (truthy (in_section st)); reflexivity.
Qed.


Lemma for_each_line_spec config (lines : list str) st :
  for_each_line config st lines =
  (ls ← patch_from config (in_section st) lines;
   Ok {| new_lines := new_lines st ++ ls;
         in_section := fold_left next_section lines (in_section st) |}).
Proof.
  revert st. induction lines as [|line rest IH]; intros st; simpl.
  - rewrite app_nil_r. by destruct st.
  - rewrite loop_body_spec.
    destruct (patched config (in_section st) line) as [l|e]; simpl; [|reflexivity].
    rewrite IH. simpl.
    destruct (patch_from config _ rest) as [ls|e]; simpl; [|reflexivity].
    by rewrite <- app_assoc.
Qed.

Lemma patch_lines_spec config (lines : list str) :
  patch_lines config lines = patch_from config None lines.
Proof.
  unfold patch_lines. rewrite for_each_line_spec. simpl.
  by destruct (patch_from config None lines).
Qed.

(** A successful run gives one output line per input line, each the
    [patched] form of the input line under the cursor in front of it. *)
Lemma patch_from_lookup config (lines : list str) sec out :
  patch_from config sec lines = Ok out →
  length out = length lines ∧
  ∀ i line, lines !! i = Some line →
    ∃ l, out !! i = Some l ∧
         patched config (fold_left next_section (take i lines) sec) line = Ok l.
Proof.
  revert sec out. induction lines as [|x rest IH]; intros sec out; simpl.
  - intros [= <-]. split; [reflexivity|]. intros i line H. by destruct i.
  - destruct (patched config sec x) as [l|e] eqn:Hx; simpl; [|discriminate].
    destruct (patch_from config (next_section sec x) rest) as [ls|e] eqn:Hr;
      simpl; [|discriminate].
    intros [= <-]. destruct (IH _ _ Hr) as [Hlen Hall].
    split; [simpl; by rewrite Hlen|].
    intros [|i] line; simpl.
    + intros [= <-]. eauto.
    + intros H. exact (Hall i line H).
Qed.

(** With a table under [chat] no line raises, so the loop completes. *)
Lemma patched_total config sec (line : str) :
  chat_is_table config → ∃ l, patched config sec line = Ok l.
Proof.
  intros Ht. unfold patched.
  destruct (key_of line) as [key|]; [|eauto].
  destruct (_ && _); [|eauto].
  unfold chat_value, get_chat, chat_is_table in *.
  destruct (config !! lit "chat") as [[t|]|]; simpl; eauto.
  congruence.
Qed.

Lemma patch_from_total config (lines : list str) sec :
  chat_is_table config → ∃ out, patch_from config sec lines = Ok out.
Proof.
  intros Ht. revert sec. induction lines as [|x rest IH]; intros sec; simpl.
  - eauto.
  - destruct (patched_total config sec x Ht) as [l ->].
    destruct (IH (next_section sec x)) as [ls ->]. simpl. eauto.
Qed.

Lemma patch_lines_lookup config (lines out : list str) :
  patch_lines config lines = Ok out →
  length out = length lines ∧
  ∀ i line, lines !! i = Some line →
    ∃ l, out !! i = Some l ∧ patched config (cursor lines i) line = Ok l.
Proof.
  rewrite patch_lines_spec. apply patch_from_lookup.
Qed.

Lemma patch_lines_total config (lines : list str) :
  chat_is_table config → ∃ out, patch_lines config lines = Ok out.
Proof.
  rewrite patch_lines_spec. apply patch_from_total.
Qed.

Lemma patched_target config sec (line key : str) :
  targets sec line key →
  patched config sec line =
  (v ← chat_value config key;
   Ok (replacement_line (leading_ws line) key (format_item v))).
Proof.
  intros (-> & Hk & Hin). unfold patched. rewrite Hk.
  rewrite !bool_decide_eq_true_2 by done. reflexivity.
Qed.

Lemma patched_other config sec (line : str) :
  (∀ key, ¬ targets sec line key) → patched config sec line = Ok line.
Proof.
  intros Hn. unfold patched.
  destruct (key_of line) as [key|] eqn:Hk; [|reflexivity].
  case_bool_decide as Hsec; [|reflexivity].
  case_bool_decide as Hin; [|reflexivity].
  destruct (Hn key). by repeat split.
Qed.

Lemma chat_value_table config (key : str) :
  chat_is_table config → ∃ v, chat_value config key = Ok v.
Proof.
  unfold chat_is_table, chat_value, get_chat.
  destruct (config !! lit "chat") as [[t|]|]; simpl; eauto. congruence.
Qed.

(** ** The patcher keeps the shape of the file *)

(** C1.  For every line list and every configuration document (a
    mapping whose [chat] entry, when there is one, is a table), the
    patcher produces an output of exactly as many lines as the input;
    every blank or comment line is found unchanged at its position, and
    so is every other line that is not a target line of the chat
    section: the lines keep their order. *)
Theorem patch_same_lines_comments_kept
    (config : gmap (list N) entry) (original_lines : list str) :
  chat_is_table config →
  ∃ out,
    patch_lines config original_lines = Ok out
    ∧ length out = length original_lines
    ∧ (∀ i line, original_lines !! i = Some line →
         is_comment_or_blank line = true → out !! i = Some line)
    ∧ (∀ i line, original_lines !! i = Some line →
         out !! i = Some line
         ∨ ∃ key, targets (cursor original_lines i) line key).
Proof.
  intros Ht.
  destruct (patch_lines_total config original_lines Ht) as [out Hout].
  destruct (patch_lines_lookup _ _ _ Hout) as [Hlen Hall].
  exists out. repeat split; [done..| |].
  - intros i line Hi Hc.
    destruct (Hall i line Hi) as (l & Hl & Hp).
    rewrite patched_not_plain in Hp by auto. congruence.
  - intros i line Hi.
    destruct (Hall i line Hi) as (l & Hl & Hp).
    unfold patched in Hp.
    destruct (key_of line) as [key|] eqn:Hk; [|left; congruence].
    destruct (bool_decide (cursor original_lines i = Some (lit "chat"))) eqn:Hsec;
      [|left; simpl in Hp; congruence].
    destruct (bool_decide (key ∈ target_keys)) eqn:Hin;
      [|left; simpl in Hp; congruence].
    right. exists key.
    apply bool_decide_eq_true_1 in Hsec, Hin. by repeat split.
Qed.

Lemma patch_same_lines_comments_kept_witness :
  chat_is_table sample_config
  ∧ ∃ out,
      patch_lines sample_config sample_lines = Ok out
      ∧ length out = length sample_lines
      ∧ (∀ i line, sample_lines !! i = Some line →
           is_comment_or_blank line = true → out !! i = Some line)
      ∧ (∀ i line, sample_lines !! i = Some line →
           out !! i = Some line
           ∨ ∃ key, targets (cursor sample_lines i) line key).
Proof.
  split; [by vm_compute|].
  apply (patch_same_lines_comments_kept sample_config sample_lines).
  by vm_compute.
Defined.

(** ** Replacement of the target lines *)

Lemma lstrip_spaces n (s : str) : lstrip (spaces n ++ s) = lstrip s.
Proof. unfold spaces. induction n as [|n IH]; simpl; [reflexivity|exact IH]. Qed.

Lemma leading_ws_spaces n (s : str) :
  leading_ws (spaces n ++ s) = (n + leading_ws s)%nat.
Proof.
  unfold spaces. induction n as [|n IH]; simpl; [reflexivity|by rewrite IH].
Qed.

Lemma take_spaces n (s : str) : take n (spaces n ++ s) = spaces n.
Proof.
  rewrite take_app_length'; [reflexivity|].
  unfold spaces. by rewrite repeat_length.
Qed.

Lemma contains_app c (s t : str) :
  contains c (s ++ t) = contains c s || contains c t.
Proof. unfold contains. apply existsb_app. Qed.

Lemma contains_spaces n : contains EQUALS (spaces n) = false.
Proof. unfold spaces. induction n as [|n IH]; simpl; [reflexivity|exact IH]. Qed.

Lemma split_first_app c (p r : str) :
  contains c p = false → split_first c (p ++ c :: r) = p.
Proof.
  induction p as [|x p IH]; simpl.
  - by rewrite N.eqb_refl.
  - rewrite (N.eqb_sym c x). destruct (x =? c); [discriminate|].
    simpl. intros H. by rewrite IH.
Qed.

(** The replacement line is again an assignment to the same key, with
    the indentation it was given. *)
Lemma key_of_replacement n (key value : str) :
  key ∈ target_keys → key_of (replacement_line n key value) = Some key.
Proof.
  intros Hin. unfold key_of, replacement_line.
  assert (Hshape : ∀ rest : str,
    spaces n ++ key ++ lit " = " ++ rest
    = (spaces n ++ key ++ [SPACE]) ++ EQUALS :: SPACE :: rest).
  { intros rest. rewrite <- !app_assoc. reflexivity. }
  rewrite Hshape.
  assert (Hno : contains EQUALS (spaces n ++ key ++ [SPACE]) = false).
  { rewrite contains_app, contains_spaces.
    apply target_keys_cases in Hin as [->| ->]; reflexivity. }
  rewrite contains_app. replace (contains EQUALS (EQUALS :: _)) with true by reflexivity.
  rewrite orb_true_r, split_first_app by exact Hno.
  unfold strip. rewrite lstrip_spaces.
  apply target_keys_cases in Hin as [->| ->]; reflexivity.
Qed.

Lemma leading_ws_replacement n (key value : str) :
  key ∈ target_keys → leading_ws (replacement_line n key value) = n.
Proof.
  intros Hin. unfold replacement_line. rewrite leading_ws_spaces.
  apply target_keys_cases in Hin as [->| ->]; simpl; lia.
Qed.

(** C2.  A line inside the chat section whose key is [group_list] or
    [private_list] is replaced by [<indent><key> = <value>] and a line
    terminator, where [<indent>] is as many spaces as the line had
    leading whitespace characters and [<value>] is the identifier list
    the document holds for the key, as a bracketed, comma-separated
    literal; the empty list gives [[]]. *)
Theorem target_line_replaced
    (config : gmap (list N) entry) (original_lines : list str)
    (i : nat) (line key : str) (ids : list Z) :
  chat_value config key = Ok (IntList ids) →
  original_lines !! i = Some line →
  targets (cursor original_lines i) line key →
  ∃ out,
    patch_lines config original_lines = Ok out
    ∧ out !! i
      = Some (spaces (leading_ws line) ++ key ++ lit " = "
                ++ str_int_list ids ++ [NEWLINE])
    ∧ (ids = [] → str_int_list ids = lit "[]").
Proof.
  intros Hv Hi Ht.
  assert (Htab : chat_is_table config).
  { unfold chat_is_table, chat_value, get_chat in *.
    destruct (config !! lit "chat") as [[t|]|]; simpl in *; congruence. }
  destruct (patch_lines_total config original_lines Htab) as [out Hout].
  destruct (patch_lines_lookup _ _ _ Hout) as [_ Hall].
  destruct (Hall i line Hi) as (l & Hl & Hp).
  rewrite (patched_target _ _ _ _ Ht), Hv in Hp. simpl in Hp.
  injection Hp as <-.
  exists out. repeat split; [done..|by intros ->].
Qed.

Lemma target_line_replaced_witness :
  chat_value sample_config (lit "group_list") = Ok (IntList [10; 20; 30]%Z)
  ∧ example_lines !! 1%nat = Some (ln "group_list = [1,2]")
  ∧ targets (cursor example_lines 1) (ln "group_list = [1,2]")
      (lit "group_list")
  ∧ ∃ out,
      patch_lines sample_config example_lines = Ok out
      ∧ out !! 1%nat = Some (ln "group_list = [10, 20, 30]")
      ∧ ([10; 20; 30]%Z = [] → str_int_list [10; 20; 30]%Z = lit "[]").
Proof.
  assert (H1 : chat_value sample_config (lit "group_list")
               = Ok (IntList [10; 20; 30]%Z)) by (by vm_compute).
  assert (H2 : example_lines !! 1%nat = Some (ln "group_list = [1,2]"))
    by reflexivity.
  assert (H3 : targets (cursor example_lines 1) (ln "group_list = [1,2]")
                 (lit "group_list")).
  { split; [by vm_compute|]. split; [by vm_compute|].
    apply target_keys_cases. by left. }
  split; [exact H1|]. split; [exact H2|]. split; [exact H3|].
  exact (target_line_replaced _ _ _ _ _ _ H1 H2 H3).
Defined.

(** ** Section scoping *)

(** C3.  A line met while the section cursor is not [chat], under
    another header or in front of every header, is copied unchanged,
    whatever its key; so a line that is changed lies in the chat
    section. *)
Theorem outside_chat_untouched
    (config : gmap (list N) entry) (original_lines : list str)
    (i : nat) (line : str) :
  chat_is_table config →
  original_lines !! i = Some line →
  cursor original_lines i ≠ Some (lit "chat") →
  ∃ out,
    patch_lines config original_lines = Ok out ∧ out !! i = Some line.
Proof.
  intros Ht Hi Hsec.
  destruct (patch_lines_total config original_lines Ht) as [out Hout].
  destruct (patch_lines_lookup _ _ _ Hout) as [_ Hall].
  destruct (Hall i line Hi) as (l & Hl & Hp).
  rewrite patched_other in Hp.
  - injection Hp as <-. eauto.
  - intros key (Hc & _). contradiction.
Qed.

Lemma outside_chat_untouched_witness :
  chat_is_table sample_config
  ∧ sample_lines !! 6%nat = Some (ln "group_list = [7]")
  ∧ cursor sample_lines 6 ≠ Some (lit "chat")
  ∧ ∃ out,
      patch_lines sample_config sample_lines = Ok out
      ∧ out !! 6%nat = Some (ln "group_list = [7]").
Proof.
  assert (H1 : chat_is_table sample_config) by (by vm_compute).
  assert (H2 : sample_lines !! 6%nat = Some (ln "group_list = [7]"))
    by reflexivity.
  assert (H3 : cursor sample_lines 6 ≠ Some (lit "chat")) by (by vm_compute).
  split; [exact H1|]. split; [exact H2|]. split; [exact H3|].
  exact (outside_chat_untouched _ _ _ _ H1 H2 H3).
Defined.

(** ** Missing target keys *)

(** C5.  When no line of the file is an assignment to [group_list] or
    [private_list] inside the chat section, the output is the input,
    line for line, whatever the document holds: nothing is inserted and
    the lists of the document do not reach the file. *)
Theorem no_target_line_no_change
    (config : gmap (list N) entry) (original_lines : list str) :
  (∀ i line key, original_lines !! i = Some line →
     ¬ targets (cursor original_lines i) line key) →
  patch_lines config original_lines = Ok original_lines.
Proof.
  intros Hno. rewrite patch_lines_spec. unfold cursor in Hno.
  generalize dependent (@None str).
  induction original_lines as [|x rest IH]; intros sec Hno; simpl.
  - reflexivity.
  - rewrite patched_other by (intros key; exact (Hno 0%nat x key eq_refl)).
    simpl. rewrite IH; [reflexivity|].
    intros i line key Hi. exact (Hno (S i) line key Hi).
Qed.

Lemma no_target_line_no_change_witness :
  (∀ i line key,
     [ln "[other]"; ln "group_list = [7]"] !! i = Some line →
     ¬ targets (cursor [ln "[other]"; ln "group_list = [7]"] i) line key)
  ∧ patch_lines sample_config [ln "[other]"; ln "group_list = [7]"]
    = Ok [ln "[other]"; ln "group_list = [7]"].
Proof.
  assert (H : ∀ i line key,
     [ln "[other]"; ln "group_list = [7]"] !! i = Some line →
     ¬ targets (cursor [ln "[other]"; ln "group_list = [7]"] i) line key).
  { intros [|[|i]] line key Hi (Hc & _); vm_compute in Hc; discriminate. }
  split; [exact H|].
  exact (no_target_line_no_change sample_config _ H).
Defined.

(** ** Idempotence *)

(** Patching a patched line under the same cursor changes nothing, and
    the patched line moves the cursor as the original line did. *)
Lemma patched_idem config sec (x l : str) :
  patched config sec x = Ok l →
  patched config sec l = Ok l ∧ next_section sec l = next_section sec x.
Proof.
  intros H.
  destruct (key_of x) as [key|] eqn:Hk; cycle 1.
  { assert (Hno : ∀ key, ¬ targets sec x key)
      by (intros key (_ & Hk' & _); congruence).
    rewrite patched_other in H by done. injection H as <-.
    split; [by apply patched_other|done]. }
  destruct (decide (sec = Some (lit "chat") ∧ key ∈ target_keys)) as [[Hs Hin]|Hn].
  - assert (Ht : targets sec x key) by done.
    rewrite (patched_target _ _ _ _ Ht) in H.
    destruct (chat_value config key) as [v|e] eqn:Hv; simpl in H; [|discriminate].
    injection H as <-.
    assert (Ht' : targets sec
                    (replacement_line (leading_ws x) key (format_item v)) key).
    { split; [done|]. split; [by apply key_of_replacement|done]. }
    split.
    + rewrite (patched_target _ _ _ _ Ht'), Hv. simpl.
      by rewrite leading_ws_replacement.
    + unfold next_section.
      destruct (target_key_plain _ _ Hk Hin) as [-> _].
      destruct (target_key_plain _ _
                  (key_of_replacement (leading_ws x) _ (format_item v) Hin) Hin)
        as [-> _].
      reflexivity.
  - assert (Hno : ∀ key', ¬ targets sec x key').
    { intros key' (Hs & Hk' & Hin). apply Hn. split; congruence. }
    rewrite patched_other in H by done. injection H as <-.
    split; [by apply patched_other|done].
Qed.

Lemma patch_from_idem config (lines : list str) sec out :
  patch_from config sec lines = Ok out → patch_from config sec out = Ok out.
Proof.
  revert sec out. induction lines as [|x rest IH]; intros sec out; simpl.
  - by intros [= <-].
  - destruct (patched config sec x) as [l|e] eqn:Hx; simpl; [|discriminate].
    destruct (patch_from config (next_section sec x) rest) as [ls|e] eqn:Hr;
      simpl; [|discriminate].
    intros [= <-]. simpl.
    destruct (patched_idem _ _ _ _ Hx) as [-> ->]. simpl.
    by rewrite (IH _ _ Hr).
Qed.

(** C6.  Patching is idempotent: the output of a first patch, patched
    again with the same document, comes back unchanged. *)
Theorem patch_idempotent
    (config : gmap (list N) entry) (original_lines : list str) :
  chat_is_table config →
  ∃ out,
    patch_lines config original_lines = Ok out
    ∧ patch_lines config out = Ok out.
Proof.
  intros Ht.
  destruct (patch_lines_total config original_lines Ht) as [out Hout].
  exists out. split; [exact Hout|].
  rewrite patch_lines_spec in *. by apply patch_from_idem with original_lines.
Qed.

Lemma patch_idempotent_witness :
  chat_is_table sample_config
  ∧ ∃ out,
      patch_lines sample_config sample_lines = Ok out
      ∧ patch_lines sample_config out = Ok out.
Proof.
  assert (H : chat_is_table sample_config) by (by vm_compute).
  split; [exact H|]. exact (patch_idempotent sample_config sample_lines H).
Defined.

(** ** Indentation and repeated keys *)

(** C9.  The line that replaces a target line is indented by as many
    characters as the original, all of them spaces; an indentation that
    held a tab or any other character than a space is therefore not
    reproduced. *)
Theorem indentation_rewritten_as_spaces
    (config : gmap (list N) entry) (original_lines : list str)
    (i : nat) (line key : str) :
  chat_is_table config →
  original_lines !! i = Some line →
  targets (cursor original_lines i) line key →
  ∃ out l,
    patch_lines config original_lines = Ok out
    ∧ out !! i = Some l
    ∧ leading_ws l = leading_ws line
    ∧ take (leading_ws line) l = spaces (leading_ws line)
    ∧ (∀ c, c ∈ take (leading_ws line) line → c ≠ SPACE →
         take (leading_ws line) l ≠ take (leading_ws line) line).
Proof.
  intros Htab Hi Ht.
  destruct (patch_lines_total config original_lines Htab) as [out Hout].
  destruct (patch_lines_lookup _ _ _ Hout) as [_ Hall].
  destruct (Hall i line Hi) as (l & Hl & Hp).
  rewrite (patched_target _ _ _ _ Ht) in Hp.
  destruct (chat_value_table config key Htab) as [v Hv].
  rewrite Hv in Hp. simpl in Hp. injection Hp as <-.
  destruct Ht as (_ & _ & Hin).
  assert (Htake : take (leading_ws line)
                    (replacement_line (leading_ws line) key (format_item v))
                  = spaces (leading_ws line)) by apply take_spaces.
  exists out, (replacement_line (leading_ws line) key (format_item v)).
  repeat split; [done..|by apply leading_ws_replacement|done|].
  intros c Hc Hne Heq. rewrite Htake in Heq. rewrite <- Heq in Hc.
  apply list_elem_of_In, repeat_spec in Hc. contradiction.
Qed.

Lemma indentation_rewritten_as_spaces_witness :
  chat_is_table sample_config
  ∧ repeated_lines !! 2%nat = Some (TAB :: ln "group_list = [2]")
  ∧ targets (cursor repeated_lines 2) (TAB :: ln "group_list = [2]")
      (lit "group_list")
  ∧ ∃ out l,
      patch_lines sample_config repeated_lines = Ok out
      ∧ out !! 2%nat = Some l
      ∧ leading_ws l = 1%nat
      ∧ take 1 l = [SPACE]
      ∧ (∀ c, c ∈ [TAB] → c ≠ SPACE → take 1 l ≠ [TAB]).
Proof.
  assert (H1 : chat_is_table sample_config) by (by vm_compute).
  assert (H2 : repeated_lines !! 2%nat = Some (TAB :: ln "group_list = [2]"))
    by reflexivity.
  assert (H3 : targets (cursor repeated_lines 2)
                 (TAB :: ln "group_list = [2]") (lit "group_list")).
  { split; [by vm_compute|]. split; [by vm_compute|].
    apply target_keys_cases. by left. }
  split; [exact H1|]. split; [exact H2|]. split; [exact H3|].
  exact (indentation_rewritten_as_spaces _ _ _ _ _ H1 H2 H3).
Defined.

(** C10.  Every assignment to a target key inside the chat section is
    replaced, not only the first: all the lines of one key receive the
    same new value, each in its own place, and the number of lines
    stays what it was. *)
Theorem every_occurrence_replaced
    (config : gmap (list N) entry) (original_lines : list str) :
  chat_is_table config →
  ∃ out,
    patch_lines config original_lines = Ok out
    ∧ length out = length original_lines
    ∧ ∀ key, key ∈ target_keys →
        ∃ v, chat_value config key = Ok v
             ∧ ∀ i line, original_lines !! i = Some line →
                 targets (cursor original_lines i) line key →
                 out !! i
                 = Some (replacement_line (leading_ws line) key (format_item v)).
Proof.
  intros Htab.
  destruct (patch_lines_total config original_lines Htab) as [out Hout].
  destruct (patch_lines_lookup _ _ _ Hout) as [Hlen Hall].
  exists out. split; [exact Hout|]. split; [exact Hlen|].
  intros key Hin.
  destruct (chat_value_table config key Htab) as [v Hv].
  exists v. split; [exact Hv|].
  intros i line Hi Ht.
  destruct (Hall i line Hi) as (l & Hl & Hp).
  rewrite (patched_target _ _ _ _ Ht), Hv in Hp. simpl in Hp.
  injection Hp as <-. exact Hl.
Qed.

Lemma every_occurrence_replaced_witness :
  chat_is_table sample_config
  ∧ ∃ out,
      patch_lines sample_config repeated_lines = Ok out
      ∧ length out = length repeated_lines
      ∧ ∀ key, key ∈ target_keys →
          ∃ v, chat_value sample_config key = Ok v
               ∧ ∀ i line, repeated_lines !! i = Some line →
                   targets (cursor repeated_lines i) line key →
                   out !! i
                   = Some (replacement_line (leading_ws line) key
                             (format_item v)).
Proof.
  assert (H : chat_is_table sample_config) by (by vm_compute).
  split; [exact H|].
  exact (every_occurrence_replaced sample_config repeated_lines H).
Defined.

Example repeated_lines_patched :
  patch_lines sample_config repeated_lines
  = Ok [ ln "[chat]";
         ln "group_list = [10, 20, 30]";
         ln " group_list = [10, 20, 30]" ].
Proof. by vm_compute. Qed.

(** ** Comments on a target line *)

(** C7.  The patcher does not keep every comment: a comment that
    stands on a target line of the chat section goes with the line.  On
    [commented_lines] the output has the new list and no comment. *)
Theorem inline_comment_lost :
  patch_lines sample_config commented_lines
  = Ok [ ln "[chat]"; ln "group_list = [10, 20, 30]" ]
  ∧ contains HASH (concat commented_lines) = true
  ∧ ∀ out, patch_lines sample_config commented_lines = Ok out →
           contains HASH (concat out) = false.
Proof.
  assert (H : patch_lines sample_config commented_lines
              = Ok [ ln "[chat]"; ln "group_list = [10, 20, 30]" ])
    by (by vm_compute).
  split; [exact H|]. split; [reflexivity|].
  intros out Hout. rewrite H in Hout. injection Hout as <-. reflexivity.
Qed.

(** ** The wizard without a configuration file *)

(** C8.  When there is no file at the configuration path, the wizard
    returns failure after its banner and the error message alone: the
    file system is as before, so no file has come into being at the
    path, no input has been consumed, and neither the reader nor the
    collector nor the patcher has left a trace. *)
Theorem missing_config_fails
    (unicode_decimal : char → option N) (max_str_digits : N)
    (toml_load : str → option (gmap (list N) entry)) (w : world) :
  files w !! config_path w = None →
  ∃ w',
    configure_qq_adapter unicode_decimal max_str_digits toml_load w
    = (Ok false, w')
    ∧ files w' = files w
    ∧ files w' !! config_path w = None
    ∧ stdin w' = stdin w
    ∧ trace w'
      = trace w ++ [LogStart; PrintBanner; LogMissing (config_path w);
                    PrintMissing].
Proof.
  destruct w as [dir fs ro inp tr]. intros Hnone.
  unfold configure_qq_adapter, try_except, mbind, M_bind, emit,
    get_config_path, exists_, set_trace, config_path in *.
  cbn [trace files script_dir stdin unwritable] in *.
  rewrite Hnone, bool_decide_eq_false_2 by (intros [? ?]; discriminate).
  cbn [negb mret M_ret trace files script_dir stdin unwritable].
  eexists. split; [reflexivity|].
  cbn [trace files script_dir stdin unwritable].
  rewrite <- !app_assoc. by repeat split.
Qed.

Lemma missing_config_fails_witness :
  files sample_world !! config_path sample_world = None
  ∧ ∃ w',
      configure_qq_adapter ascii_only 4300 (fun _ => None) sample_world
      = (Ok false, w')
      ∧ files w' = files sample_world
      ∧ files w' !! config_path sample_world = None
      ∧ stdin w' = stdin sample_world
      ∧ trace w'
        = trace sample_world
          ++ [LogStart; PrintBanner; LogMissing (config_path sample_world);
              PrintMissing].
Proof.
  assert (H : files sample_world !! config_path sample_world = None)
    by reflexivity.
  split; [exact H|].
  exact (missing_config_fails ascii_only 4300 (fun _ => None) sample_world H).
Defined.

(** ** The collector *)

Lemma replace_all_separators (s : str) :
  fold_left (fun s sep => replace sep SPACE s) separators s
  = List.map normalized s.
Proof.
  unfold separators, replace. cbn [fold_left]. rewrite !List.map_map.
  apply List.map_ext. intros c. unfold normalized.
  destruct (N.eqb_spec c COMMA) as [->|H1]; [reflexivity|].
  destruct (N.eqb_spec c FULLWIDTH_COMMA) as [->|H2]; [reflexivity|].
  destruct (N.eqb_spec c SPACE) as [->|H3]; [reflexivity|].
  destruct (N.eqb_spec c TAB) as [->|H4]; [reflexivity|].
  rewrite bool_decide_eq_false_2; [reflexivity|].
  unfold separators. rewrite !elem_of_cons, elem_of_nil. tauto.
Qed.

Lemma isspace_normalized c : isspace (normalized c) = is_delimiter c.
Proof.
  unfold normalized, is_delimiter. by case_bool_decide.
Qed.

Lemma normalized_token_char c : is_delimiter c = false → normalized c = c.
Proof.
  unfold normalized, is_delimiter. case_bool_decide; [discriminate|done].
Qed.

Lemma split_from_normalized (s : str) tok :
  split_from tok (List.map normalized s) = glue tok s.
Proof.
  revert tok. induction s as [|c r IH]; intros tok.
  - by destruct tok.
  - cbn [List.map split_from]. rewrite isspace_normalized.
    destruct (is_delimiter c) eqn:Hc.
    + rewrite (IH []). destruct tok; simpl; by rewrite Hc.
    + rewrite (normalized_token_char _ Hc), IH.
      unfold glue at 1.
      destruct (tok ++ [c]) as [|x y] eqn:Hx; [by destruct tok|].
      rewrite <- Hx. clear x y Hx.
      destruct tok as [|a tok]; simpl; rewrite Hc; simpl.
      * by destruct (starts_token r), (tokens r).
      * destruct (starts_token r); [|reflexivity].
        destruct (tokens r); [reflexivity|].
        by rewrite <- app_assoc.
Qed.

Lemma tokens_lstrip (s : str) : tokens (lstrip s) = tokens s.
Proof.
  induction s as [|c r IH]; simpl; [reflexivity|].
  destruct (isspace c) eqn:Hc; [|reflexivity].
  unfold is_delimiter. by rewrite Hc, orb_true_r.
Qed.

Lemma tokens_cons c (r : str) :
  tokens (c :: r)
  = if is_delimiter c then tokens r
    else if starts_token r then
      match tokens r with
      | t :: ts => (c :: t) :: ts
      | [] => [[c]]
      end
    else [c] :: tokens r.
Proof. reflexivity. Qed.

Lemma tokens_rstrip (s : str) :
  tokens (rstrip s) = tokens s ∧ starts_token (rstrip s) = starts_token s.
Proof.
  induction s as [|c r [IH1 IH2]]; [done|].
  cbn [rstrip]. destruct (rstrip r) as [|x r'] eqn:Hr.
  - simpl in IH1, IH2. destruct (isspace c) eqn:Hc.
    + simpl. unfold is_delimiter. by rewrite Hc, orb_true_r.
    + simpl. rewrite <- IH1, <- IH2. done.
  - split; [|reflexivity].
    by rewrite (tokens_cons c (x :: r')), (tokens_cons c r), IH1, IH2.
Qed.

Lemma tokens_strip (s : str) : tokens (strip s) = tokens s.
Proof.
  unfold strip. by rewrite (proj1 (tokens_rstrip _)), tokens_lstrip.
Qed.

(** The pipeline of lines 120-135 yields the tokens of the typed line. *)
Lemma split_pipeline (s : str) :
  split (fold_left (fun s sep => replace sep SPACE s) separators (strip s))
  = tokens s.
Proof.
  unfold split. rewrite replace_all_separators, split_from_normalized.
  apply tokens_strip.
Qed.

(** A token holds no delimiter, so nothing is left to trim. *)
Lemma tokens_clean (s : str) :
  Forall (fun t => forallb (fun c => negb (is_delimiter c)) t = true) (tokens s).
Proof.
  induction s as [|c r IH]; simpl; [constructor|].
  destruct (is_delimiter c) eqn:Hc; [exact IH|].
  destruct (starts_token r).
  - destruct (tokens r) as [|t ts]; [by repeat constructor; simpl; rewrite Hc|].
    inversion IH as [|? ? Ht Hts]; subst.
    constructor; [simpl; by rewrite Hc|done].
  - constructor; [simpl; by rewrite Hc|done].
Qed.

Lemma rstrip_clean (t : str) :
  forallb (fun c => negb (isspace c)) t = true → rstrip t = t.
Proof.
  induction t as [|c r IH]; simpl; [done|].
  intros [Hc Hr]%andb_true_iff. rewrite (IH Hr).
  apply negb_true_iff in Hc. rewrite Hc. by destruct r.
Qed.

Lemma strip_clean (t : str) :
  forallb (fun c => negb (is_delimiter c)) t = true → strip t = t.
Proof.
  intros H.
  assert (Hs : forallb (fun c => negb (isspace c)) t = true).
  { apply forallb_forall. intros c Hc.
    apply (proj1 (forallb_forall _ _) H) in Hc.
    unfold is_delimiter in Hc. apply negb_true_iff, orb_false_iff in Hc.
    apply negb_true_iff. tauto. }
  unfold strip.
  assert (Hl : lstrip t = t).
  { destruct t as [|c r]; simpl in *; [done|].
    apply andb_true_iff in Hs as [Hc _].
    apply negb_true_iff in Hc. by rewrite Hc. }
  rewrite Hl. by apply rstrip_clean.
Qed.

Lemma set_trace_set_trace t1 t2 w :
  set_trace t2 (set_trace t1 w) = set_trace t2 w.
Proof. reflexivity. Qed.

Lemma set_trace_same w : set_trace (trace w) w = w.
Proof. by destruct w. Qed.

Section Collector.

Variable unicode_decimal : char → option N.
Variable max_str_digits : N.

(** The loop over the tokens keeps the accepted identifiers in order
    and prints the warnings in order. *)
Lemma for_each_part_spec (parts : list str) (qq_list : list Z) (w : world) :
  Forall (fun t => strip t = t) parts →
  for_each_part unicode_decimal max_str_digits qq_list parts w
  = (Ok (qq_list ++ omap (accepted unicode_decimal max_str_digits) parts),
     set_trace
       (trace w ++ omap (warning unicode_decimal max_str_digits) parts) w).
Proof.
  intros Hclean. revert qq_list w.
  induction Hclean as [|part rest Hpart _ IH]; intros qq_list w.
  - cbn. by rewrite !app_nil_r, set_trace_same.
  - cbn [for_each_part]. rewrite Hpart.
    unfold mbind, M_bind, accepted, warning. cbn [omap list_omap].
    fold (omap (accepted unicode_decimal max_str_digits) rest).
    fold (omap (warning unicode_decimal max_str_digits) rest).
    unfold accepted, warning.
    destruct (py_int unicode_decimal max_str_digits part) as [z|];
      [destruct (0 <? z)%Z|]; cbn; rewrite IH; cbn;
      rewrite <- ?app_assoc; reflexivity.
Qed.

Lemma accepted_positive (parts : list str) :
  Forall (fun z => 0 < z)%Z
    (omap (accepted unicode_decimal max_str_digits) parts).
Proof.
  induction parts as [|part rest IH]; cbn; [constructor|].
  fold (omap (accepted unicode_decimal max_str_digits) rest).
  unfold accepted at 1.
  destruct (py_int unicode_decimal max_str_digits part) as [z|]; [|exact IH].
  destruct (0 <? z)%Z eqn:Hz; [|exact IH].
  constructor; [by apply Z.ltb_lt|exact IH].
Qed.

(** C4.  On a typed line the collector returns, and raises nothing.
    An input that is empty once trimmed gives the empty list.
    Otherwise commas of both scripts, spaces and tabs count as one
    separator and the line falls into its tokens, the runs that hold
    neither a separator nor other whitespace; the result holds, in
    typed order and with repetitions, the value of every token that
    parses to a strictly positive integer; every other token, whether
    it parses to zero or to a negative number or does not parse, is
    dropped with one warning on the console. *)
Theorem collect_tokens
    (prompt : str) (s : str) (rest : list read_result) (w : world) :
  stdin w = Line s :: rest →
  let ids := omap (accepted unicode_decimal max_str_digits) (tokens s) in
  let warnings := omap (warning unicode_decimal max_str_digits) (tokens s) in
  input_qq_list unicode_decimal max_str_digits prompt w
  = (Ok ids,
     set_stdin rest
       (set_trace
          (trace w ++ [PrintPrompt prompt; InputPrompt]
             ++ (if is_empty (strip s) then [LogSkipped]
                 else warnings
                      ++ (if is_empty ids then []
                          else [LogAdded ids; PrintAdded (length ids)])))
          w))
  ∧ (strip s = [] → ids = [])
  ∧ Forall (fun z => 0 < z)%Z ids.
Proof.
  intros Hin ids warnings.
  split; [|split].
  - destruct w as [dir fs ro inp tr]. cbn in Hin. subst inp.
    unfold input_qq_list, mbind, M_bind, emit, input, set_trace, set_stdin.
    cbn [trace stdin files script_dir unwritable].
    destruct (is_empty (strip s)) eqn:He.
    + assert (Hs : strip s = []) by (by destruct (strip s)).
      subst ids. rewrite <- (tokens_strip s), Hs. cbn.
      by rewrite <- !app_assoc.
    + rewrite split_pipeline, for_each_part_spec; cycle 1.
      { eapply Forall_impl; [apply tokens_clean|]. apply strip_clean. }
      cbn [app]. fold ids. fold warnings.
      unfold set_trace. cbn [trace stdin files script_dir unwritable].
      destruct (is_empty ids); cbn; rewrite <- ?app_assoc, ?app_nil_r;
        reflexivity.
  - intros Hs. subst ids. by rewrite <- (tokens_strip s), Hs.
  - apply accepted_positive.
Qed.

End Collector.

Lemma collect_tokens_witness :
  stdin sample_world = Line (lit "123, 456  789,abc -5") :: []
  ∧ input_qq_list ascii_only 4300 PROMPT_GROUPS sample_world
    = (Ok [123; 456; 789]%Z,
       set_stdin []
         (set_trace
            [PrintPrompt PROMPT_GROUPS; InputPrompt;
             PrintWarnInput (lit "abc"); PrintWarnQQ (lit "-5");
             LogAdded [123; 456; 789]%Z; PrintAdded 3]
            sample_world)).
Proof.
  assert (H : stdin sample_world = Line (lit "123, 456  789,abc -5") :: [])
    by reflexivity.
  split; [exact H|].
  exact (proj1 (collect_tokens ascii_only 4300 PROMPT_GROUPS _ _ _ H)).
Defined.

(** ** A run of the wizard *)

Example readlines_sample : readlines (concat sample_lines) = sample_lines.
Proof. by vm_compute. Qed.

(** The wizard reads the sample file, collects the two lists, patches
    the two target lines of the chat section and writes the file back. *)
Example wizard_run :
  ∃ w',
    configure_qq_adapter ascii_only 4300 (fun _ => Some (chat_doc [1; 2]%Z []))
      filled_world
    = (Ok true, w')
    ∧ stdin w' = []
    ∧ (readlines <$> files w' !! config_path filled_world)
      = Some [ ln "# adapter settings";
               [NEWLINE];
               ln "[chat]";
               ln "group_list = [10, 20, 30]";
               ln "  private_list = []";
               ln "[other]";
               ln "group_list = [7]" ].
Proof. eexists. by vm_compute. Qed.

(** ** What the wizard hands to the patcher *)

(** After an assignment [config['chat'][key] = value] has succeeded,
    the document has a table under [chat]: the patcher never meets
    another kind of document in a run of the wizard. *)
Lemma set_chat_item_table config (key : str) value config' :
  set_chat_item config key value = Ok config' → chat_is_table config'.
Proof.
  unfold set_chat_item, chat_is_table.
  destruct (config !! lit "chat") as [[t|]|]; [|discriminate..].
  intros [= <-]. by rewrite lookup_insert_eq.
Qed.
